(** * Broadlink exceptions: a shallow embedding of [broadlink/exceptions.py]

    The module defines the exception classes of the Broadlink client, the
    table [BROADLINK_EXCEPTIONS] from error codes to classes and messages,
    the factory [exception] and the guard [check_error].

    Python values are modelled by the part of the language the module
    touches: constructor arguments are [None], integers and strings, the
    elements aggregated by [MultipleErrors] are exceptions of this module,
    and a string is a sequence of code points below 256.  The behaviour of
    the builtins the module calls ([str], [repr], [collections.Counter],
    [struct.unpack], [BaseException]) follows CPython 3.7 and later. *)

From Stdlib Require Import ZArith String Ascii Strings.Byte DecimalString List Lia.
From Stdlib Require Import Sorting.Sorted Sorting.Permutation DecimalZ.
From stdpp Require Import base decidable option list gmap strings.
Import ListNotations.

Local Open Scope string_scope.
Local Open Scope Z_scope.

(** ** Values and classes *)

(** The objects passed to the constructors of the plain classes. *)
Inductive PyVal : Type :=
| VNone
| VInt (z : Z)
| VStr (s : string).

(** The classes of the module, in the order of their definition. *)
Inductive ErrorClass : Type :=
| BroadlinkException
| MultipleErrors
| AuthenticationError
| AuthorizationError
| CommandNotSupportedError
| ConnectionClosedError
| StructureAbnormalError
| DeviceOfflineError
| ReadError
| SendError
| SSIDNotFoundError
| StorageError
| WriteError
| NetworkTimeoutError
| DataValidationError
| UnknownError.

#[global] Instance PyVal_eq_dec : EqDecision PyVal.
Proof. solve_decision. Defined.

#[global] Instance ErrorClass_eq_dec : EqDecision ErrorClass.
Proof. solve_decision. Defined.

(** [type(self).__name__] *)
Definition class_name (c : ErrorClass) : string :=
  match c with
  | BroadlinkException => "BroadlinkException"
  | MultipleErrors => "MultipleErrors"
  | AuthenticationError => "AuthenticationError"
  | AuthorizationError => "AuthorizationError"
  | CommandNotSupportedError => "CommandNotSupportedError"
  | ConnectionClosedError => "ConnectionClosedError"
  | StructureAbnormalError => "StructureAbnormalError"
  | DeviceOfflineError => "DeviceOfflineError"
  | ReadError => "ReadError"
  | SendError => "SendError"
  | SSIDNotFoundError => "SSIDNotFoundError"
  | StorageError => "StorageError"
  | WriteError => "WriteError"
  | NetworkTimeoutError => "NetworkTimeoutError"
  | DataValidationError => "DataValidationError"
  | UnknownError => "UnknownError"
  end.

(** An exception object: its class, the [args] tuple kept by
    [BaseException], and the attributes the module sets.  [errors] is set by
    [MultipleErrors] only and is empty on the other classes. *)
#[warnings="-register-all"] Inductive exc : Type :=
  Exc { cls : ErrorClass;
        args : list PyVal;
        errno : PyVal;
        strerror : string;
        errors : list exc }.

Definition set_errors (self : exc) (errs : list exc) : exc :=
  {| cls := cls self; args := args self; errno := errno self;
     strerror := strerror self; errors := errs |}.

(** ** Builtins: [str] and [repr] *)

(** [str(n)] for an integer. *)
Definition int_str (z : Z) : string := NilEmpty.string_of_int (Z.to_int z).

Definition quote : ascii := "'"%char.
Definition dquote : ascii := "034"%char.
Definition backslash : ascii := "\"%char.

Fixpoint contains (c : ascii) (s : string) : bool :=
  match s with
  | EmptyString => false
  | String d s' => Ascii.eqb c d || contains c s'
  end.

Definition hex_digit (n : N) : ascii :=
  match n with
  | 0 => "0" | 1 => "1" | 2 => "2" | 3 => "3" | 4 => "4" | 5 => "5" | 6 => "6"
  | 7 => "7" | 8 => "8" | 9 => "9" | 10 => "a" | 11 => "b" | 12 => "c"
  | 13 => "d" | 14 => "e" | _ => "f"
  end%N%char.

(** Code points that [repr] writes as [\xNN]: the control characters, DEL,
    the non-breaking space and the soft hyphen. *)
Definition unprintable (n : N) : bool :=
  ((n <? 32) || ((127 <=? n) && (n <=? 160)) || (n =? 173))%N.

Definition escape_char (q c : ascii) : string :=
  let n := N_of_ascii c in
  if Ascii.eqb c q || Ascii.eqb c backslash then String backslash (String c "")
  else if (n =? 9)%N then String backslash "t"
  else if (n =? 10)%N then String backslash "n"
  else if (n =? 13)%N then String backslash "r"
  else if unprintable n then
    String backslash (String "x" (String (hex_digit (n / 16)) (String (hex_digit (n mod 16)) "")))
  else String c "".

Fixpoint escape (q : ascii) (s : string) : string :=
  match s with
  | EmptyString => ""
  | String c s' => escape_char q c ++ escape q s'
  end.

(** [repr(s)] for a string: double quotes only when the string has a single
    quote and no double quote. *)
Definition str_repr (s : string) : string :=
  let q := if contains quote s && negb (contains dquote s) then dquote else quote in
  String q (escape q s ++ String q "").

(** [str(v)] *)
Definition py_str (v : PyVal) : string :=
  match v with
  | VNone => "None"
  | VInt z => int_str z
  | VStr s => s
  end.

(** [repr(v)] *)
Definition py_repr (v : PyVal) : string :=
  match v with
  | VNone => "None"
  | VInt z => int_str z
  | VStr s => str_repr s
  end.

(** [sep.join(l)] *)
Definition join (sep : string) (l : list string) : string := String.concat sep l.

(** [repr] of a tuple of zero or of two and more items; the one-item tuple
    does not occur, [BaseException.__repr__] formats it itself. *)
Definition tuple_repr (l : list string) : string := "(" ++ join ", " l ++ ")".

Definition list_repr (l : list string) : string := "[" ++ join ", " l ++ "]".

(** [BaseException.__repr__], overridden by [MultipleErrors.__repr__]. *)
Fixpoint exc_repr (self : exc) : string :=
  match cls self with
  | MultipleErrors =>
      "MultipleErrors(" ++ list_repr (List.map exc_repr (errors self)) ++ ")"
  | c =>
      match args self with
      | [a] => class_name c ++ "(" ++ py_repr a ++ ")"
      | l => class_name c ++ tuple_repr (List.map py_repr l)
      end
  end.

(** ** [BroadlinkException] *)

(** [BroadlinkException.__init__], run on an object of class [self_type]. *)
Definition BroadlinkException_init (self_type : ErrorClass) (args : list PyVal) : exc :=
  if (2 <=? length args)%nat then
    {| cls := self_type; args := args;
       errno := nth 0 args VNone;
       strerror := join ": " (List.map py_str (skipn 1 args));
       errors := [] |}
  else if (length args =? 1)%nat then
    {| cls := self_type; args := args;
       errno := VNone;
       strerror := py_str (nth 0 args VNone);
       errors := [] |}
  else
    {| cls := self_type; args := args;
       errno := VNone;
       strerror := "";
       errors := [] |}.

(** [BroadlinkException.__str__] *)
Definition BroadlinkException_str (self : exc) : string :=
  match errno self with
  | VNone => strerror self
  | code => "[Errno " ++ py_str code ++ "] " ++ strerror self
  end.

(** [==] on the argument values: integers, strings and [None] compare by
    value, values of different types are unequal. *)
Definition PyVal_eq (a b : PyVal) : bool :=
  match a, b with
  | VNone, VNone => true
  | VInt x, VInt y => Z.eqb x y
  | VStr s, VStr t => String.eqb s t
  | _, _ => false
  end.

(** [==] on tuples: same length and equal items. *)
Fixpoint tuple_eq (l1 l2 : list PyVal) : bool :=
  match l1, l2 with
  | [], [] => true
  | a :: l1', b :: l2' => PyVal_eq a b && tuple_eq l1' l2'
  | _, _ => false
  end.

(** [BroadlinkException.__eq__] *)
Definition exc_eq (self other : exc) : bool :=
  bool_decide (cls self = cls other) && tuple_eq (args self) (args other).

(** [BroadlinkException.__hash__]; [hash] is the builtin on the pair of the
    class and the argument tuple. *)
Definition exc_hash (hash : ErrorClass * list PyVal -> Z) (self : exc) : Z :=
  hash (cls self, args self).

(** ** [collections.Counter] *)

(** A [Counter] is a dict from elements to counts.  A dict keeps its keys in
    insertion order and finds a key by [__hash__] and [__eq__]; equal
    exceptions have equal hashes, so a key is found exactly when [__eq__]
    holds, and the key stored first is kept. *)
Definition counter : Type := list (exc * Z).

(** [mapping[elem] = mapping.get(elem, 0) + 1] *)
Fixpoint count_element (elem : exc) (mapping : counter) : counter :=
  match mapping with
  | [] => [(elem, 0 + 1)]
  | (key, n) :: rest =>
      if exc_eq key elem then (key, n + 1) :: rest
      else (key, n) :: count_element elem rest
  end.

(** [Counter(iterable)] *)
Definition Counter (iterable : list exc) : counter :=
  fold_left (fun mapping elem => count_element elem mapping) iterable [].

(** Insertion of an item behind the items whose count is not smaller. *)
Fixpoint insert_by_count (item : exc * Z) (sorted : counter) : counter :=
  match sorted with
  | [] => [item]
  | head :: rest =>
      if Z.ltb (snd head) (snd item) then item :: head :: rest
      else head :: insert_by_count item rest
  end.

(** [Counter.most_common()]: [sorted(items, key=itemgetter(1), reverse=True)],
    a stable sort, so items of equal count stay in insertion order. *)
Definition most_common (c : counter) : counter :=
  fold_left (fun sorted item => insert_by_count item sorted) c [].

Definition item_repr (item : exc * Z) : string :=
  exc_repr (fst item) ++ ": " ++ int_str (snd item).

Definition dict_repr (items : counter) : string :=
  "{" ++ join ", " (List.map item_repr items) ++ "}".

(** [Counter.__repr__] *)
Definition Counter_repr (c : counter) : string :=
  match c with
  | [] => "Counter()"
  | _ => "Counter(" ++ dict_repr (most_common c) ++ ")"
  end.

(** [mapping.get(elem, 0)]: the count stored under a key equal to [elem]. *)
Fixpoint counter_get (elem : exc) (mapping : counter) : Z :=
  match mapping with
  | [] => 0
  | (key, n) :: rest => if exc_eq key elem then n else counter_get elem rest
  end.

(** [sum(mapping.values())] *)
Fixpoint counter_total (mapping : counter) : Z :=
  match mapping with
  | [] => 0
  | (_, n) :: rest => n + counter_total rest
  end.

(** The number of items of a sequence that compare equal to [elem]. *)
Fixpoint occurrences (elem : exc) (l : list exc) : Z :=
  match l with
  | [] => 0
  | x :: l' => (if exc_eq elem x then 1 else 0) + occurrences elem l'
  end.

(** The keys of a dict are pairwise unequal. *)
Fixpoint distinct_keys (mapping : counter) : Prop :=
  match mapping with
  | [] => True
  | (key, _) :: rest =>
      (forall item, In item rest -> exc_eq key (fst item) = false) /\
      distinct_keys rest
  end.



(** Two errors compare equal and are not aggregates. *)
Definition leaf_equal (x y : exc) : Prop :=
  exc_eq x y = true /\ cls x <> MultipleErrors.

(** Two entries have equal non-aggregate keys and the same count. *)
Definition entry_equal (i j : exc * Z) : Prop :=
  leaf_equal (fst i) (fst j) /\ snd i = snd j.

(** ** [MultipleErrors] *)

(** [MultipleErrors.__init__]; each positional argument is a list of
    exceptions, and only the first one is read. *)
Definition MultipleErrors_init (args : list (list exc)) : exc :=
  let errors := match args with a0 :: _ => a0 | [] => [] end in
  let counter := Counter errors in
  let strerror := "Multiple errors occurred: " ++ Counter_repr counter in
  let self := BroadlinkException_init MultipleErrors [VStr strerror] in
  set_errors self errors.

(** [MultipleErrors.__str__] *)
Definition MultipleErrors_str (self : exc) : string := strerror self.

(** [str(self)], dispatched on the class of the object. *)
Definition exc_str (self : exc) : string :=
  match cls self with
  | MultipleErrors => MultipleErrors_str self
  | _ => BroadlinkException_str self
  end.

(** ** The code table and the factory *)

Definition BROADLINK_EXCEPTIONS_items : list (Z * (ErrorClass * string)) :=
  [ (-1, (AuthenticationError, "Authentication failed"));
    (-2, (ConnectionClosedError, "You have been logged out"));
    (-3, (DeviceOfflineError, "The device is offline"));
    (-4, (CommandNotSupportedError, "Command not supported"));
    (-5, (StorageError, "The device storage is full"));
    (-6, (StructureAbnormalError, "Structure is abnormal"));
    (-7, (AuthorizationError, "Control key is expired"));
    (-8, (SendError, "Send error"));
    (-9, (WriteError, "Write error"));
    (-10, (ReadError, "Read error"));
    (-11, (SSIDNotFoundError, "SSID could not be found in AP configuration"));
    (-2040, (DataValidationError, "Device information is not intact"));
    (-4000, (NetworkTimeoutError, "Network timeout"));
    (-4007, (DataValidationError, "Received data packet length error"));
    (-4008, (DataValidationError, "Received data packet check error"));
    (-4009, (DataValidationError, "Received data packet information type error"));
    (-4010, (DataValidationError, "Received encrypted data packet length error"));
    (-4011, (DataValidationError, "Received encrypted data packet check error"));
    (-4012, (AuthorizationError, "Device control ID error")) ].

(** The dict built from the literal. *)
Definition BROADLINK_EXCEPTIONS : gmap Z (ErrorClass * string) :=
  list_to_map BROADLINK_EXCEPTIONS_items.

(** [exception(err_code)]: a missing key raises [KeyError], which the
    function catches. *)
Definition exception (err_code : Z) : exc :=
  match BROADLINK_EXCEPTIONS !! err_code with
  | Some (exc, msg) => BroadlinkException_init exc [VInt err_code; VStr msg]
  | None => BroadlinkException_init UnknownError [VInt err_code; VStr "Unknown error"]
  end.

(** ** [check_error] *)

(** [sys.byteorder]: the format ["h"] has no byte-order prefix, so
    [struct.unpack] reads the field in the byte order of the host. *)
Inductive byteorder : Type := little | big.

Definition byte_Z (b : byte) : Z := Z.of_N (Byte.to_N b).

(** The two bytes as an unsigned 16-bit number. *)
Definition unsigned16 (order : byteorder) (b0 b1 : byte) : Z :=
  match order with
  | little => Z.lor (byte_Z b0) (Z.shiftl (byte_Z b1) 8)
  | big => Z.lor (Z.shiftl (byte_Z b0) 8) (byte_Z b1)
  end.

(** Two's complement reading of a 16-bit number. *)
Definition signed16 (u : Z) : Z :=
  if Z.testbit u 15 then u - 65536 else u.

(** [struct.unpack("h", buffer)[0]]; [None] stands for [struct.error], raised
    when the buffer is not two bytes long. *)
Definition unpack_h (order : byteorder) (buffer : list byte) : option Z :=
  match buffer with
  | [b0; b1] => Some (signed16 (unsigned16 order b0 b1))
  | _ => None
  end.

(** What a call raises: an exception of this module or [struct.error]. *)
Inductive raised : Type :=
| Broadlink (e : exc)
| struct_error.

(** The outcome of a call that returns [None] or raises. *)
Inductive outcome : Type :=
| Return
| Raise (r : raised).

(** [check_error(error)] on a host of byte order [order]. *)
Definition check_error (order : byteorder) (error : list byte) : outcome :=
  match unpack_h order error with
  | None => Raise struct_error
  | Some error_code =>
      if Z.eqb error_code 0 then Return
      else Raise (Broadlink (exception error_code))
  end.

(** ** The code table of the specification *)

(** The kinds of the specification's data model. *)
Inductive ErrorKind : Type :=
| Authentication | Authorization | CommandNotSupported | ConnectionClosed
| StructureAbnormal | DeviceOffline | Read | Send | SSIDNotFound | Storage
| Write | NetworkTimeout | DataValidation | Unknown.

#[global] Instance ErrorKind_eq_dec : EqDecision ErrorKind.
Proof. solve_decision. Defined.

(** The kind a class stands for; the base class and the aggregate are not
    kinds of the table. *)
Definition kind_of (c : ErrorClass) : option ErrorKind :=
  match c with
  | BroadlinkException | MultipleErrors => None
  | AuthenticationError => Some Authentication
  | AuthorizationError => Some Authorization
  | CommandNotSupportedError => Some CommandNotSupported
  | ConnectionClosedError => Some ConnectionClosed
  | StructureAbnormalError => Some StructureAbnormal
  | DeviceOfflineError => Some DeviceOffline
  | ReadError => Some Read
  | SendError => Some Send
  | SSIDNotFoundError => Some SSIDNotFound
  | StorageError => Some Storage
  | WriteError => Some Write
  | NetworkTimeoutError => Some NetworkTimeout
  | DataValidationError => Some DataValidation
  | UnknownError => Some Unknown
  end.

(** The rows of the table in the specification's section on external
    interfaces, as written there. *)
Definition spec_code_table : list (Z * ErrorKind * string) :=
  [ (-1, Authentication, "Authentication failed");
    (-2, ConnectionClosed, "You have been logged out");
    (-3, DeviceOffline, "The device is offline");
    (-4, CommandNotSupported, "Command not supported");
    (-5, Storage, "The device storage is full");
    (-6, StructureAbnormal, "Structure is abnormal");
    (-7, Authorization, "Control key is expired");
    (-8, Send, "Send error");
    (-9, Write, "Write error");
    (-10, Read, "Read error");
    (-11, SSIDNotFound, "SSID could not be found in AP configuration");
    (-2040, DataValidation, "Device information is not intact");
    (-4000, NetworkTimeout, "Network timeout");
    (-4007, DataValidation, "Received data packet length error");
    (-4008, DataValidation, "Received data packet check error");
    (-4009, DataValidation, "Received data packet information type error");
    (-4010, DataValidation, "Received encrypted data packet length error");
    (-4011, DataValidation, "Received encrypted data packet check error");
    (-4012, Authorization, "Device control ID error") ].

(** Case analysis on a membership in a list literal. *)
Ltac table_cases H :=
  repeat (apply elem_of_cons in H as [H | H]; [ | ]);
  [ .. | apply elem_of_nil in H; destruct H ].

(** ** Evaluation on concrete values *)

Example exception_m7 :
  exc_str (exception (-7)) = "[Errno -7] Control key is expired".
Proof. vm_compute. reflexivity. Qed.

(** ** Equality *)

Lemma PyVal_eq_true (a b : PyVal) : PyVal_eq a b = true <-> a = b.
Proof.
  destruct a, b; simpl; split; try discriminate; try reflexivity.
  - intros H. apply Z.eqb_eq in H. congruence.
  - intros [= ->]. apply Z.eqb_refl.
  - intros H. apply String.eqb_eq in H. congruence.
  - intros [= ->]. apply String.eqb_refl.
Qed.

Lemma tuple_eq_true (l1 l2 : list PyVal) : tuple_eq l1 l2 = true <-> l1 = l2.
Proof.
  revert l2. induction l1 as [|a l1 IH]; intros [|b l2]; simpl;
    split; try discriminate; try reflexivity.
  - intros H. apply andb_prop in H as [Hab Hl].
    apply PyVal_eq_true in Hab. apply IH in Hl. congruence.
  - intros [= -> ->]. apply andb_true_intro. split.
    + apply PyVal_eq_true. reflexivity.
    + apply IH. reflexivity.
Qed.

Lemma exc_eq_true (e1 e2 : exc) :
  exc_eq e1 e2 = true <-> cls e1 = cls e2 /\ args e1 = args e2.
Proof.
  unfold exc_eq. rewrite andb_true_iff, bool_decide_eq_true, tuple_eq_true.
  reflexivity.
Qed.

Lemma exc_eq_refl (e : exc) : exc_eq e e = true.
Proof. apply exc_eq_true. split; reflexivity. Qed.

(** ** The constructor *)

Lemma init_cls (c : ErrorClass) (a : list PyVal) :
  cls (BroadlinkException_init c a) = c.
Proof. unfold BroadlinkException_init. repeat case_match; reflexivity. Qed.

Lemma init_args (c : ErrorClass) (a : list PyVal) :
  args (BroadlinkException_init c a) = a.
Proof. unfold BroadlinkException_init. repeat case_match; reflexivity. Qed.

Lemma init_code_message (c : ErrorClass) (code : Z) (msg : string) :
  BroadlinkException_init c [VInt code; VStr msg] =
  {| cls := c; args := [VInt code; VStr msg]; errno := VInt code;
     strerror := msg; errors := [] |}.
Proof. reflexivity. Qed.

(** ** The code table *)

Lemma BROADLINK_EXCEPTIONS_lookup (code : Z) (c : ErrorClass) (msg : string) :
  BROADLINK_EXCEPTIONS !! code = Some (c, msg) <->
  (code, (c, msg)) ∈ BROADLINK_EXCEPTIONS_items.
Proof.
  unfold BROADLINK_EXCEPTIONS. symmetry. apply elem_of_list_to_map.
  compute_done.
Qed.

(** C1: for every code in the table, [exception] returns an error of the
    class mapped to the code, with the code as [errno] and the mapped
    message as [strerror]; and the table holds exactly the nineteen rows of
    the specification, each class standing for the kind of its row. *)
Theorem exception_of_table_code :
  (forall (code : Z) (c : ErrorClass) (msg : string),
      BROADLINK_EXCEPTIONS !! code = Some (c, msg) ->
      exception code =
      {| cls := c; args := [VInt code; VStr msg]; errno := VInt code;
         strerror := msg; errors := [] |}) /\
  (forall (code : Z) (k : ErrorKind) (msg : string),
      (code, k, msg) ∈ spec_code_table <->
      exists c, BROADLINK_EXCEPTIONS !! code = Some (c, msg) /\ kind_of c = Some k) /\
  length spec_code_table = 19%nat /\
  size BROADLINK_EXCEPTIONS = 19%nat.
Proof.
  split; [ | split; [ | split ] ].
  - intros code c msg H. unfold exception. rewrite H. reflexivity.
  - intros code k msg. split.
    + intros H. unfold spec_code_table in H.
      table_cases H; injection H as -> -> ->;
        eexists; (split; [ vm_compute; reflexivity | reflexivity ]).
    + intros [c [H Hk]]. apply BROADLINK_EXCEPTIONS_lookup in H.
      unfold BROADLINK_EXCEPTIONS_items in H.
      table_cases H; injection H as -> -> ->; injection Hk as <-;
        apply list_elem_of_In; simpl; tauto.
  - reflexivity.
  - vm_compute. reflexivity.
Qed.

Lemma exception_of_table_code_witness :
  exception (-7) =
  {| cls := AuthorizationError;
     args := [VInt (-7); VStr "Control key is expired"];
     errno := VInt (-7);
     strerror := "Control key is expired";
     errors := [] |}.
Proof.
  apply (proj1 exception_of_table_code (-7) AuthorizationError
           "Control key is expired").
  vm_compute. reflexivity.
Defined.

(** C2: for every code that is not in the table, [exception] returns an
    [UnknownError] with the code as [errno] and the message "Unknown error";
    and for every integer the function returns an error that carries the
    code and whose class is one of the kinds. *)
Theorem exception_of_other_code :
  (forall code : Z,
      BROADLINK_EXCEPTIONS !! code = None ->
      exception code =
      {| cls := UnknownError; args := [VInt code; VStr "Unknown error"];
         errno := VInt code; strerror := "Unknown error"; errors := [] |}) /\
  (forall code : Z,
      errno (exception code) = VInt code /\
      is_Some (kind_of (cls (exception code))) /\
      args (exception code) = [VInt code; VStr (strerror (exception code))]).
Proof.
  split.
  - intros code H. unfold exception. rewrite H. reflexivity.
  - intros code. unfold exception.
    destruct (BROADLINK_EXCEPTIONS !! code) as [[c msg]|] eqn:H.
    + rewrite init_code_message. simpl. repeat split.
      apply BROADLINK_EXCEPTIONS_lookup in H.
      unfold BROADLINK_EXCEPTIONS_items in H.
      table_cases H; injection H as -> -> ->; eexists; reflexivity.
    + rewrite init_code_message. simpl. repeat split. eexists; reflexivity.
Qed.

Lemma exception_of_other_code_witness :
  exception 5 =
  {| cls := UnknownError; args := [VInt 5; VStr "Unknown error"];
     errno := VInt 5; strerror := "Unknown error"; errors := [] |}.
Proof.
  apply (proj1 exception_of_other_code 5). vm_compute. reflexivity.
Defined.

(** ** Decoding of the two-byte field *)

Lemma byte_Z_range (b : byte) : 0 <= byte_Z b < 256.
Proof.
  unfold byte_Z. pose proof (Byte.to_N_bounded b) as H.
  split; [apply N2Z.is_nonneg | ]. apply N2Z.inj_le in H. simpl in H. lia.
Qed.

Lemma byte_Z_zero (b : byte) : byte_Z b = 0 <-> b = x00.
Proof.
  split; [ | intros ->; reflexivity ].
  unfold byte_Z. intros H.
  assert (Hn : Byte.to_N b = 0%N) by lia.
  apply (f_equal Byte.of_N) in Hn. rewrite Byte.of_to_N in Hn.
  simpl in Hn. congruence.
Qed.

(** Bytes placed at disjoint bit positions add up. *)
Lemma lor_shiftl_8 (lo hi : Z) :
  0 <= lo < 256 -> Z.lor lo (Z.shiftl hi 8) = lo + 256 * hi.
Proof.
  intros Hlo.
  assert (Hdisj : Z.land lo (Z.shiftl hi 8) = 0).
  { apply Z.bits_inj'. intros n Hn.
    rewrite Z.land_spec, Z.bits_0.
    destruct (Z.ltb_spec n 8) as [Hlt | Hge].
    - rewrite (Z.shiftl_spec_low hi 8 n Hlt). apply andb_false_r.
    - rewrite <- (Z.mod_small lo (2 ^ 8)) by (simpl; lia).
      rewrite Z.mod_pow2_bits_high by lia. reflexivity. }
  rewrite <- Z.lxor_lor by exact Hdisj.
  rewrite <- Z.add_nocarry_lxor by exact Hdisj.
  rewrite Z.shiftl_mul_pow2 by lia. simpl. lia.
Qed.

Lemma unsigned16_little (b0 b1 : byte) :
  unsigned16 little b0 b1 = byte_Z b0 + 256 * byte_Z b1.
Proof. apply lor_shiftl_8, byte_Z_range. Qed.

Lemma unsigned16_big (b0 b1 : byte) :
  unsigned16 big b0 b1 = 256 * byte_Z b0 + byte_Z b1.
Proof.
  unfold unsigned16. rewrite Z.lor_comm, lor_shiftl_8 by apply byte_Z_range.
  lia.
Qed.

Lemma unsigned16_range (order : byteorder) (b0 b1 : byte) :
  0 <= unsigned16 order b0 b1 < 65536.
Proof.
  pose proof (byte_Z_range b0). pose proof (byte_Z_range b1).
  destruct order; [rewrite unsigned16_little | rewrite unsigned16_big]; lia.
Qed.

Lemma testbit_15 (u : Z) :
  0 <= u < 65536 -> Z.testbit u 15 = (32768 <=? u).
Proof.
  intros Hu. destruct (Z.leb_spec 32768 u) as [Hge | Hlt].
  - apply Z.testbit_true; [lia | ].
    replace (u / 2 ^ 15) with 1; [reflexivity | ].
    apply (Z.div_unique u (2 ^ 15) 1 (u - 32768)); simpl; lia.
  - apply Z.testbit_false; [lia | ].
    rewrite Z.div_small by (simpl; lia). reflexivity.
Qed.

Lemma signed16_spec (u : Z) :
  0 <= u < 65536 ->
  -32768 <= signed16 u < 32768 /\ signed16 u mod 65536 = u.
Proof.
  intros Hu. unfold signed16. rewrite testbit_15 by exact Hu.
  destruct (Z.leb_spec 32768 u) as [Hge | Hlt].
  - split; [lia | ].
    symmetry. apply (Z.mod_unique (u - 65536) 65536 (-1) u); lia.
  - split; [lia | ]. apply Z.mod_small. lia.
Qed.

Lemma signed16_zero (u : Z) : 0 <= u < 65536 -> (signed16 u = 0 <-> u = 0).
Proof.
  intros Hu. unfold signed16. rewrite testbit_15 by exact Hu.
  destruct (Z.leb_spec 32768 u); lia.
Qed.

Lemma unsigned16_zero (order : byteorder) (b0 b1 : byte) :
  unsigned16 order b0 b1 = 0 <-> b0 = x00 /\ b1 = x00.
Proof.
  pose proof (byte_Z_range b0). pose proof (byte_Z_range b1).
  rewrite <- !byte_Z_zero.
  destruct order; [rewrite unsigned16_little | rewrite unsigned16_big]; lia.
Qed.

(** ** [check_error] *)

Lemma check_error_decoded (order : byteorder) (b0 b1 : byte) :
  check_error order [b0; b1] =
  (if Z.eqb (signed16 (unsigned16 order b0 b1)) 0 then Return
   else Raise (Broadlink (exception (signed16 (unsigned16 order b0 b1))))).
Proof. reflexivity. Qed.

(** C3: on every two-byte input and on either host, [check_error] decodes a
    signed 16-bit integer (the value between -32768 and 32767 congruent to
    the unsigned reading of the two bytes), returns exactly when that value
    is zero, which happens for the bytes 00 00 only, and otherwise raises
    the error [exception] builds for the decoded code. *)
Theorem check_error_two_bytes (order : byteorder) (b0 b1 : byte) :
  let code := signed16 (unsigned16 order b0 b1) in
  unpack_h order [b0; b1] = Some code /\
  -32768 <= code < 32768 /\
  code mod 65536 = unsigned16 order b0 b1 /\
  (check_error order [b0; b1] = Return <-> code = 0) /\
  (code <> 0 ->
   check_error order [b0; b1] = Raise (Broadlink (exception code))) /\
  (code = 0 <-> b0 = x00 /\ b1 = x00).
Proof.
  intros code.
  pose proof (unsigned16_range order b0 b1) as Hu.
  destruct (signed16_spec _ Hu) as [Hrange Hmod]. fold code in Hrange, Hmod.
  split; [reflexivity | ]. split; [exact Hrange | ]. split; [exact Hmod | ].
  unfold check_error, unpack_h. fold code.
  destruct (Z.eqb_spec code 0) as [Hz | Hnz].
  - split; [tauto | ]. split; [tauto | ].
    unfold code. rewrite signed16_zero by exact Hu. apply unsigned16_zero.
  - split; [split; [discriminate | tauto] | ]. split; [reflexivity | ].
    unfold code in *. rewrite signed16_zero by exact Hu. apply unsigned16_zero.
Qed.

Lemma check_error_two_bytes_witness :
  check_error little [xfd; xff] = Raise (Broadlink (exception (-3))) /\
  check_error big [x00; x00] = Return.
Proof.
  split.
  - apply (check_error_two_bytes little xfd xff). vm_compute. discriminate.
  - apply (check_error_two_bytes big x00 x00). vm_compute. reflexivity.
Defined.

(** C4, as the claim states it, fails on a host of big-endian byte order:
    there the bytes FD FF decode to -513, which is not in the table. *)
Lemma check_error_big_endian_host :
  check_error big [xfd; xff] =
  Raise (Broadlink
           {| cls := UnknownError; args := [VInt (-513); VStr "Unknown error"];
              errno := VInt (-513); strerror := "Unknown error"; errors := [] |}) /\
  check_error big [xfd; xff] <>
  Raise (Broadlink
           {| cls := DeviceOfflineError;
              args := [VInt (-3); VStr "The device is offline"];
              errno := VInt (-3); strerror := "The device is offline";
              errors := [] |}).
Proof. split; [vm_compute; reflexivity | vm_compute; discriminate]. Qed.

(** C4, amended: [check_error] reads the field in the byte order of the
    host.  On a little-endian host the decoded code is the signed 16-bit
    integer congruent to [b0 + 256 * b1], and the bytes FD FF raise
    [DeviceOfflineError] with code -3 and message "The device is offline";
    a big-endian host reads the same two bytes in the opposite order. *)
Theorem check_error_host_byte_order :
  (forall b0 b1 : byte,
      exists code : Z,
        unpack_h little [b0; b1] = Some code /\
        -32768 <= code < 32768 /\
        code mod 65536 = byte_Z b0 + 256 * byte_Z b1 /\
        check_error little [b0; b1] =
        (if Z.eqb code 0 then Return else Raise (Broadlink (exception code)))) /\
  check_error little [xfd; xff] =
  Raise (Broadlink
           {| cls := DeviceOfflineError;
              args := [VInt (-3); VStr "The device is offline"];
              errno := VInt (-3); strerror := "The device is offline";
              errors := [] |}) /\
  (forall b0 b1 : byte, check_error big [b0; b1] = check_error little [b1; b0]).
Proof.
  split; [ | split ].
  - intros b0 b1. exists (signed16 (unsigned16 little b0 b1)).
    destruct (signed16_spec _ (unsigned16_range little b0 b1)) as [Hr Hm].
    rewrite unsigned16_little in Hm at 2.
    repeat split; try assumption; lia.
  - vm_compute. reflexivity.
  - intros b0 b1. unfold check_error, unpack_h.
    rewrite unsigned16_big, unsigned16_little.
    replace (256 * byte_Z b0 + byte_Z b1) with (byte_Z b1 + 256 * byte_Z b0) by lia.
    reflexivity.
Qed.

(** C8: on an input that is not two bytes long, [check_error] raises
    [struct.error], which is none of the errors of this module; on a
    two-byte input it never does, and either returns or raises the error
    [exception] builds for a non-zero code. *)
Theorem check_error_length (order : byteorder) (error : list byte) :
  (length error <> 2%nat ->
   check_error order error = Raise struct_error /\
   forall e : exc, check_error order error <> Raise (Broadlink e)) /\
  (length error = 2%nat ->
   check_error order error <> Raise struct_error /\
   (check_error order error = Return \/
    exists code : Z,
      code <> 0 /\ check_error order error = Raise (Broadlink (exception code)))).
Proof.
  split.
  - intros Hlen.
    assert (H : check_error order error = Raise struct_error).
    { destruct error as [|b0 [|b1 [|b2 rest]]]; try reflexivity.
      simpl in Hlen. congruence. }
    split; [exact H | ]. intros e. rewrite H. discriminate.
  - intros Hlen.
    destruct error as [|b0 [|b1 [|b2 rest]]]; try discriminate Hlen.
    rewrite check_error_decoded.
    destruct (Z.eqb_spec (signed16 (unsigned16 order b0 b1)) 0) as [Hz | Hnz].
    + split; [discriminate | left; reflexivity].
    + split; [discriminate | right; eexists; split; [exact Hnz | reflexivity]].
Qed.

Lemma check_error_length_witness :
  check_error little [x01] = Raise struct_error /\
  check_error little [xfd; xff; x00] = Raise struct_error /\
  check_error little [xfd; xff] <> Raise struct_error.
Proof.
  split; [ | split ].
  - apply (proj1 (check_error_length little [x01])). simpl. lia.
  - apply (proj1 (check_error_length little [xfd; xff; x00])). simpl. lia.
  - apply (proj2 (check_error_length little [xfd; xff])). reflexivity.
Defined.

(** ** Equality and hashing *)

Lemma MultipleErrors_init_args (l : list (list exc)) :
  cls (MultipleErrors_init l) = MultipleErrors /\
  args (MultipleErrors_init l) = [VStr (strerror (MultipleErrors_init l))] /\
  errno (MultipleErrors_init l) = VNone.
Proof. repeat split. Qed.

(** C5, as the claim states it, fails on the aggregate: two [MultipleErrors]
    built from different sequences of errors compare equal. *)
Lemma MultipleErrors_equal_from_different_arguments :
  let a := exception (-1) in
  let b := exception (-3) in
  exc_eq (MultipleErrors_init [[a; b; a]]) (MultipleErrors_init [[a; a; b]]) = true /\
  exc_eq a b = false /\
  [a; b; a] <> [a; a; b].
Proof.
  split; [vm_compute; reflexivity | ].
  split; [vm_compute; reflexivity | ].
  vm_compute. discriminate.
Qed.

(** C5, amended: two errors compare equal exactly when they have the same
    class and the same [args] tuple.  For an error built by the constructor
    of [BroadlinkException], which all classes but [MultipleErrors] inherit,
    that tuple is the tuple of constructor arguments; for [MultipleErrors]
    it is the one-item tuple of the summary string.  Errors of different
    classes never compare equal, and equal errors have equal hashes. *)
Theorem exc_eq_class_and_args (hash : ErrorClass * list PyVal -> Z) :
  (forall e1 e2 : exc,
      exc_eq e1 e2 = true <-> cls e1 = cls e2 /\ args e1 = args e2) /\
  (forall (c1 c2 : ErrorClass) (a1 a2 : list PyVal),
      exc_eq (BroadlinkException_init c1 a1) (BroadlinkException_init c2 a2) = true
      <-> c1 = c2 /\ a1 = a2) /\
  (forall l : list (list exc),
      args (MultipleErrors_init l) = [VStr (strerror (MultipleErrors_init l))]) /\
  (forall e1 e2 : exc, cls e1 <> cls e2 -> exc_eq e1 e2 = false) /\
  (forall e1 e2 : exc,
      exc_eq e1 e2 = true -> exc_hash hash e1 = exc_hash hash e2).
Proof.
  split; [exact exc_eq_true | ].
  split; [intros c1 c2 a1 a2; rewrite exc_eq_true, !init_cls, !init_args; reflexivity | ].
  split; [intros l; apply MultipleErrors_init_args | ].
  split.
  - intros e1 e2 Hne. apply not_true_is_false. rewrite exc_eq_true. tauto.
  - intros e1 e2 Heq. apply exc_eq_true in Heq as [Hc Ha].
    unfold exc_hash. rewrite Hc, Ha. reflexivity.
Qed.

Lemma exc_eq_class_and_args_witness :
  exc_eq (BroadlinkException_init AuthorizationError [VInt (-7); VStr "x"])
         (BroadlinkException_init DataValidationError [VInt (-7); VStr "x"]) = false /\
  exc_hash (fun _ => 0) (exception (-7)) =
  exc_hash (fun _ => 0)
    (BroadlinkException_init AuthorizationError
       [VInt (-7); VStr "Control key is expired"]).
Proof.
  split.
  - apply (proj1 (proj2 (proj2 (proj2 (exc_eq_class_and_args (fun _ => 0)))))).
    simpl. discriminate.
  - apply (proj2 (proj2 (proj2 (proj2 (exc_eq_class_and_args (fun _ => 0)))))).
    vm_compute. reflexivity.
Defined.

(** ** Display form *)

(** C6: the display form of an error whose [errno] is an integer is
    "[Errno <code>] <message>", and the display form of an error without a
    code is the message alone; an aggregate never has a code and displays
    its summary. *)
Theorem exc_str_display :
  (forall e : exc,
      cls e <> MultipleErrors ->
      (forall code : Z,
          errno e = VInt code ->
          exc_str e = "[Errno " ++ int_str code ++ "] " ++ strerror e) /\
      (errno e = VNone -> exc_str e = strerror e)) /\
  (forall l : list (list exc),
      errno (MultipleErrors_init l) = VNone /\
      exc_str (MultipleErrors_init l) = strerror (MultipleErrors_init l)) /\
  exc_str (exception (-4012)) = "[Errno -4012] Device control ID error".
Proof.
  split; [ | split ].
  - intros e Hc.
    assert (Hs : exc_str e = BroadlinkException_str e).
    { unfold exc_str. destruct (cls e); congruence. }
    rewrite Hs. unfold BroadlinkException_str.
    split; [intros code H | intros H]; rewrite H; reflexivity.
  - intros l. split; reflexivity.
  - vm_compute. reflexivity.
Qed.

Lemma exc_str_display_witness :
  exc_str (BroadlinkException_init ReadError [VInt 42; VStr "short read"]) =
  "[Errno 42] short read" /\
  exc_str (BroadlinkException_init ReadError [VStr "short read"]) = "short read".
Proof.
  split.
  - apply (proj1 (proj1 exc_str_display
                    (BroadlinkException_init ReadError [VInt 42; VStr "short read"])
                    ltac:(simpl; discriminate)) 42).
    reflexivity.
  - apply (proj2 (proj1 exc_str_display
                    (BroadlinkException_init ReadError [VStr "short read"])
                    ltac:(simpl; discriminate))).
    reflexivity.
Defined.

(** C10: the constructor called without arguments yields an error with no
    code, the empty message and the empty display form; called with three
    or more arguments it keeps the first as the code and joins the [str] of
    all the others with ": " into the message. *)
Theorem init_without_and_with_many_arguments :
  (forall c : ErrorClass,
      let e := BroadlinkException_init c [] in
      errno e = VNone /\ strerror e = "" /\ exc_str e = "" /\ args e = []) /\
  (forall (c : ErrorClass) (a0 a1 a2 : PyVal) (rest : list PyVal),
      let e := BroadlinkException_init c (a0 :: a1 :: a2 :: rest) in
      errno e = a0 /\
      strerror e = join ": " (List.map py_str (a1 :: a2 :: rest)) /\
      strerror e =
      py_str a1 ++ ": " ++ strerror (BroadlinkException_init c (a0 :: a2 :: rest))) /\
  strerror (BroadlinkException_init BroadlinkException
              [VInt 1; VStr "a"; VNone; VInt 3]) = "a: None: 3".
Proof.
  split; [ | split ].
  - intros c. simpl. repeat split. destruct c; reflexivity.
  - intros c a0 a1 a2 rest. simpl. repeat split.
  - vm_compute. reflexivity.
Qed.

(** ** The aggregate *)

Lemma append_assoc (s1 s2 s3 : string) : (s1 ++ s2) ++ s3 = s1 ++ (s2 ++ s3).
Proof.
  induction s1 as [|c s1 IH]; [reflexivity | ].
  change (String c ((s1 ++ s2) ++ s3) = String c (s1 ++ (s2 ++ s3))).
  rewrite IH. reflexivity.
Qed.

Lemma MultipleErrors_init_strerror (errs : list exc) (rest : list (list exc)) :
  strerror (MultipleErrors_init (errs :: rest)) =
  "Multiple errors occurred: " ++ Counter_repr (Counter errs).
Proof. reflexivity. Qed.

Lemma Counter_twice_once (errA errB : exc) :
  exc_eq errA errB = false ->
  Counter [errA; errA; errB] = [(errA, 2); (errB, 1)].
Proof.
  intros Hne. unfold Counter. cbn [fold_left count_element].
  rewrite exc_eq_refl. cbn [count_element]. rewrite Hne. reflexivity.
Qed.

(** C7, as the claim states it, fails: the summary is the [repr] of the
    [Counter], so the text after the colon starts with "Counter(" and never
    with a brace. *)
Lemma MultipleErrors_summary_not_a_bare_dict :
  let errA := exception (-1) in
  let errB := exception (-3) in
  strerror (MultipleErrors_init [[errA; errA; errB]]) =
  "Multiple errors occurred: Counter({AuthenticationError(-1, 'Authentication failed'): 2, DeviceOfflineError(-3, 'The device is offline'): 1})" /\
  strerror (MultipleErrors_init [[errA; errA; errB]]) <>
  "Multiple errors occurred: {" ++ exc_repr errA ++ ": 2, " ++ exc_repr errB ++ ": 1}" /\
  forall body : string,
    strerror (MultipleErrors_init [[errA; errA; errB]]) <>
    "Multiple errors occurred: {" ++ body.
Proof.
  split; [vm_compute; reflexivity | ].
  split; [vm_compute; discriminate | ].
  intros body. vm_compute. discriminate.
Qed.

(** C7, amended: [MultipleErrors] built from [[errA, errA, errB]], with
    [errA] and [errB] unequal, counts [errA] twice and [errB] once; its
    message is "Multiple errors occurred: Counter({<repr errA>: 2, <repr
    errB>: 1})", which is also its display form, and its [errors] attribute
    is the sequence it was built from. *)
Theorem MultipleErrors_twice_once (errA errB : exc) :
  exc_eq errA errB = false ->
  let e := MultipleErrors_init [[errA; errA; errB]] in
  Counter [errA; errA; errB] = [(errA, 2); (errB, 1)] /\
  strerror e =
  "Multiple errors occurred: Counter({" ++ exc_repr errA ++ ": 2, "
    ++ exc_repr errB ++ ": 1})" /\
  exc_str e = strerror e /\
  errors e = [errA; errA; errB].
Proof.
  intros Hne e. pose proof (Counter_twice_once errA errB Hne) as HC.
  split; [exact HC | ]. split; [ | split; reflexivity ].
  unfold e. rewrite MultipleErrors_init_strerror, HC.
  unfold Counter_repr.
  change (most_common [(errA, 2); (errB, 1)]) with [(errA, 2); (errB, 1)].
  unfold dict_repr, item_repr, join.
  cbv beta iota delta [List.map String.concat fst snd].
  rewrite !append_assoc. reflexivity.
Qed.

Lemma MultipleErrors_twice_once_witness :
  errors (MultipleErrors_init [[exception (-1); exception (-1); exception (-3)]]) =
  [exception (-1); exception (-1); exception (-3)].
Proof.
  apply (MultipleErrors_twice_once (exception (-1)) (exception (-3))).
  vm_compute. reflexivity.
Defined.

(** C9: two [MultipleErrors] compare equal exactly when their summary
    strings are equal, whatever their [errors] sequences are.  The sequences
    [[a, b, a]] and [[a, a, b]] differ and give the same summary, so the
    aggregates are equal; [[a, b]] and [[b, a]] hold the same errors and
    give different summaries, so the aggregates are unequal. *)
Theorem MultipleErrors_eq_by_summary :
  (forall l1 l2 : list (list exc),
      exc_eq (MultipleErrors_init l1) (MultipleErrors_init l2) = true <->
      strerror (MultipleErrors_init l1) = strerror (MultipleErrors_init l2)) /\
  (forall l1 l2 : list exc,
      l1 ≡ₚ l2 ->
      strerror (MultipleErrors_init [l1]) <> strerror (MultipleErrors_init [l2]) ->
      exc_eq (MultipleErrors_init [l1]) (MultipleErrors_init [l2]) = false) /\
  (let a := exception (-1) in
   let b := exception (-3) in
   errors (MultipleErrors_init [[a; b; a]]) <> errors (MultipleErrors_init [[a; a; b]]) /\
   strerror (MultipleErrors_init [[a; b; a]]) = strerror (MultipleErrors_init [[a; a; b]]) /\
   exc_eq (MultipleErrors_init [[a; b; a]]) (MultipleErrors_init [[a; a; b]]) = true /\
   [a; b] ≡ₚ [b; a] /\
   strerror (MultipleErrors_init [[a; b]]) <> strerror (MultipleErrors_init [[b; a]]) /\
   exc_eq (MultipleErrors_init [[a; b]]) (MultipleErrors_init [[b; a]]) = false).
Proof.
  assert (Heq : forall l1 l2 : list (list exc),
             exc_eq (MultipleErrors_init l1) (MultipleErrors_init l2) = true <->
             strerror (MultipleErrors_init l1) = strerror (MultipleErrors_init l2)).
  { intros l1 l2. rewrite exc_eq_true.
    destruct (MultipleErrors_init_args l1) as (-> & -> & _).
    destruct (MultipleErrors_init_args l2) as (-> & -> & _).
    split; [ | intros ->; split; reflexivity ].
    intros [_ H].
    exact (f_equal (fun a => match a with [VStr s] => s | _ => "" end) H). }
  split; [exact Heq | ]. split.
  - intros l1 l2 _ Hne. apply not_true_is_false. rewrite Heq. exact Hne.
  - intros a b.
    split; [vm_compute; discriminate | ].
    split; [vm_compute; reflexivity | ].
    split; [vm_compute; reflexivity | ].
    split; [apply perm_swap | ].
    split; [vm_compute; discriminate | vm_compute; reflexivity].
Qed.

Lemma MultipleErrors_eq_by_summary_witness :
  exc_eq (MultipleErrors_init [[exception (-1); exception (-3)]])
         (MultipleErrors_init [[exception (-3); exception (-1)]]) = false.
Proof.
  apply (proj1 (proj2 MultipleErrors_eq_by_summary)).
  - apply perm_swap.
  - vm_compute. discriminate.
Defined.

(** ** [__eq__] as a relation *)

Lemma exc_eq_sym (e1 e2 : exc) : exc_eq e1 e2 = exc_eq e2 e1.
Proof.
  destruct (exc_eq e1 e2) eqn:H12; symmetry.
  - apply exc_eq_true in H12 as [Hc Ha]. apply exc_eq_true. split; congruence.
  - apply not_true_is_false. intros H21. apply exc_eq_true in H21 as [Hc Ha].
    assert (exc_eq e1 e2 = true) by (apply exc_eq_true; split; congruence).
    congruence.
Qed.

Lemma exc_eq_trans (e1 e2 e3 : exc) :
  exc_eq e1 e2 = true -> exc_eq e2 e3 = true -> exc_eq e1 e3 = true.
Proof.
  rewrite !exc_eq_true. intros [Hc Ha] [Hc' Ha']. split; congruence.
Qed.

Lemma exc_eq_congr (e1 e2 e3 : exc) :
  exc_eq e1 e2 = true -> exc_eq e1 e3 = exc_eq e2 e3.
Proof.
  intros H12. destruct (exc_eq e2 e3) eqn:H23.
  - exact (exc_eq_trans _ _ _ H12 H23).
  - apply not_true_is_false. intros H13.
    rewrite exc_eq_sym in H12.
    pose proof (exc_eq_trans _ _ _ H12 H13). congruence.
Qed.

(** X1: [__eq__] is an equivalence relation on errors: every error equals
    itself, the comparison does not depend on the side an operand is on, and
    two errors equal to a third are equal to each other; it ignores the
    [errors] attribute. *)
Theorem exc_eq_equivalence :
  (forall e : exc, exc_eq e e = true) /\
  (forall e1 e2 : exc, exc_eq e1 e2 = exc_eq e2 e1) /\
  (forall e1 e2 e3 : exc,
      exc_eq e1 e2 = true -> exc_eq e2 e3 = true -> exc_eq e1 e3 = true) /\
  (forall (e : exc) (errs : list exc), exc_eq (set_errors e errs) e = true).
Proof.
  split; [exact exc_eq_refl | ]. split; [exact exc_eq_sym | ].
  split; [exact exc_eq_trans | ].
  intros e errs. apply exc_eq_true. split; reflexivity.
Qed.

Lemma exc_eq_equivalence_witness :
  exc_eq (exception (-1))
         (BroadlinkException_init AuthenticationError
            [VInt (-1); VStr "Authentication failed"]) = true.
Proof.
  apply (proj1 (proj2 (proj2 exc_eq_equivalence))
           _ (BroadlinkException_init AuthenticationError
                [VInt (-1); VStr "Authentication failed"]) _).
  - vm_compute. reflexivity.
  - vm_compute. reflexivity.
Defined.

(** ** The counts of a [Counter] *)

Lemma Counter_snoc (l : list exc) (x : exc) :
  Counter (l ++ [x]) = count_element x (Counter l).
Proof. unfold Counter. rewrite fold_left_app. reflexivity. Qed.

Lemma counter_get_count_element (e x : exc) (m : counter) :
  counter_get e (count_element x m) =
  counter_get e m + (if exc_eq x e then 1 else 0).
Proof.
  induction m as [|[k n] rest IH]; cbn [count_element counter_get].
  - destruct (exc_eq x e); lia.
  - destruct (exc_eq k x) eqn:Hkx; cbn [counter_get].
    + rewrite <- (exc_eq_congr k x e Hkx). destruct (exc_eq k e); lia.
    + destruct (exc_eq k e) eqn:Hke; [ | exact IH ].
      rewrite (exc_eq_congr k e x Hke) in Hkx.
      rewrite (exc_eq_sym x e), Hkx. lia.
Qed.

Lemma occurrences_snoc (e x : exc) (l : list exc) :
  occurrences e (l ++ [x]) = occurrences e l + (if exc_eq e x then 1 else 0).
Proof.
  induction l as [|y l IH]; cbn [app occurrences]; [lia | ]. rewrite IH. lia.
Qed.

Lemma counter_get_Counter (e : exc) (l : list exc) :
  counter_get e (Counter l) = occurrences e l.
Proof.
  induction l as [|x l IH] using rev_ind; [reflexivity | ].
  rewrite Counter_snoc, counter_get_count_element, occurrences_snoc, IH.
  rewrite (exc_eq_sym x e). reflexivity.
Qed.

Lemma counter_total_count_element (x : exc) (m : counter) :
  counter_total (count_element x m) = counter_total m + 1.
Proof.
  induction m as [|[k n] rest IH]; cbn [count_element counter_total]; [lia | ].
  destruct (exc_eq k x); cbn [counter_total]; lia.
Qed.

Lemma keys_count_element (x : exc) (m : counter) (item : exc * Z) :
  In item (count_element x m) ->
  fst item = x \/ exists item', In item' m /\ fst item' = fst item.
Proof.
  induction m as [|[k n] rest IH]; cbn [count_element].
  - intros [<- | []]. left. reflexivity.
  - destruct (exc_eq k x).
    + intros [<- | Hin]; right.
      * exists (k, n). split; [left; reflexivity | reflexivity].
      * exists item. split; [right; exact Hin | reflexivity].
    + intros [<- | Hin].
      * right. exists (k, n). split; [left; reflexivity | reflexivity].
      * destruct (IH Hin) as [Hx | [item' [Hin' Hfst]]]; [left; exact Hx | ].
        right. exists item'. split; [right; exact Hin' | exact Hfst].
Qed.

Lemma distinct_keys_count_element (x : exc) (m : counter) :
  distinct_keys m -> distinct_keys (count_element x m).
Proof.
  induction m as [|[k n] rest IH]; cbn [count_element distinct_keys].
  - intros _. split; [intros item [] | exact I].
  - intros [Hk Hrest]. destruct (exc_eq k x) eqn:Hkx; cbn [distinct_keys].
    + split; assumption.
    + split; [ | exact (IH Hrest) ].
      intros item Hin.
      destruct (keys_count_element x rest item Hin) as [-> | [item' [Hin' <-]]].
      * exact Hkx.
      * exact (Hk item' Hin').
Qed.

Lemma counter_get_own_entry (k : exc) (n : Z) (m : counter) :
  distinct_keys m -> In (k, n) m -> counter_get k m = n.
Proof.
  induction m as [|[k' n'] rest IH]; [intros _ [] | ].
  cbn [distinct_keys counter_get]. intros [Hk Hrest] [[= -> ->] | Hin].
  - rewrite exc_eq_refl. reflexivity.
  - pose proof (Hk (k, n) Hin) as Hne. cbn [fst] in Hne.
    rewrite Hne. exact (IH Hrest Hin).
Qed.

Lemma occurrences_nonneg (e : exc) (l : list exc) : 0 <= occurrences e l.
Proof.
  induction l as [|x l IH]; cbn [occurrences]; [lia | ].
  destruct (exc_eq e x); lia.
Qed.

Lemma occurrences_member (e : exc) (l : list exc) :
  In e l -> 1 <= occurrences e l.
Proof.
  induction l as [|x l IH]; [intros [] | ]. cbn [occurrences].
  intros [-> | Hin].
  - rewrite exc_eq_refl. pose proof (occurrences_nonneg e l). lia.
  - specialize (IH Hin). destruct (exc_eq e x); lia.
Qed.

Lemma Counter_distinct_keys (l : list exc) : distinct_keys (Counter l).
Proof.
  induction l as [|x l IH] using rev_ind; [exact I | ].
  rewrite Counter_snoc. apply distinct_keys_count_element, IH.
Qed.

Lemma Counter_keys (l : list exc) (item : exc * Z) :
  In item (Counter l) -> In (fst item) l.
Proof.
  revert item. induction l as [|x l IH] using rev_ind; [intros item [] | ].
  intros item. rewrite Counter_snoc. intros Hin. apply in_or_app.
  destruct (keys_count_element x (Counter l) item Hin) as [-> | [item' [Hin' <-]]].
  - right. left. reflexivity.
  - left. exact (IH item' Hin').
Qed.

(** X2: the [Counter] that [MultipleErrors] builds from a sequence of errors
    records, for every error, the number of items of the sequence that
    compare equal to it.  Its keys are items of the sequence and pairwise
    unequal, each entry holds the number of occurrences of its own key,
    which is at least one, and the counts add up to the length of the
    sequence. *)
Theorem Counter_counts (l : list exc) :
  (forall e : exc, counter_get e (Counter l) = occurrences e l) /\
  distinct_keys (Counter l) /\
  (forall (k : exc) (n : Z),
      In (k, n) (Counter l) -> In k l /\ n = occurrences k l /\ 1 <= n) /\
  counter_total (Counter l) = Z.of_nat (length l).
Proof.
  split; [intros e; apply counter_get_Counter | ].
  split; [apply Counter_distinct_keys | ]. split.
  - intros k n Hin.
    pose proof (Counter_keys l (k, n) Hin) as Hk. cbn [fst] in Hk.
    assert (Hn : n = occurrences k l).
    { rewrite <- counter_get_Counter. symmetry.
      apply counter_get_own_entry; [apply Counter_distinct_keys | exact Hin]. }
    split; [exact Hk | ]. split; [exact Hn | ].
    rewrite Hn. apply occurrences_member, Hk.
  - induction l as [|x l IH] using rev_ind; [reflexivity | ].
    rewrite Counter_snoc, counter_total_count_element, IH, length_app.
    cbn [length]. lia.
Qed.

Lemma Counter_counts_witness :
  In (exception (-1)) [exception (-1); exception (-3); exception (-1)] /\
  2 = occurrences (exception (-1)) [exception (-1); exception (-3); exception (-1)] /\
  1 <= 2.
Proof.
  apply (proj1 (proj2 (proj2
           (Counter_counts [exception (-1); exception (-3); exception (-1)])))).
  vm_compute. left. reflexivity.
Defined.

(** ** The order of the summary *)











(** ** The arguments of [MultipleErrors] *)

Lemma Counter_nil_iff (errs : list exc) : Counter errs = [] <-> errs = [].
Proof.
  split; [ | intros ->; reflexivity ].
  destruct errs as [|x errs] using rev_ind; [reflexivity | ].
  rewrite Counter_snoc. destruct (Counter errs) as [|[k n] rest]; cbn [count_element].
  - discriminate.
  - destruct (exc_eq k x); discriminate.
Qed.

(** X4: [MultipleErrors] reads its first positional argument only, and
    called without arguments it behaves as on the empty list.  The [errors]
    attribute is the sequence that was passed, and the summary is "Multiple
    errors occurred: Counter()" exactly when that sequence is empty. *)
Theorem MultipleErrors_arguments :
  (forall (errs : list exc) (rest : list (list exc)),
      MultipleErrors_init (errs :: rest) = MultipleErrors_init [errs] /\
      errors (MultipleErrors_init (errs :: rest)) = errs) /\
  MultipleErrors_init [] = MultipleErrors_init [[]] /\
  (forall errs : list exc,
      strerror (MultipleErrors_init [errs]) = "Multiple errors occurred: Counter()"
      <-> errs = []).
Proof.
  split; [intros errs rest; split; reflexivity | ].
  split; [reflexivity | ].
  intros errs. split; [ | intros ->; reflexivity ].
  rewrite MultipleErrors_init_strerror. intros H.
  apply Counter_nil_iff.
  destruct (Counter errs) as [|item c]; [reflexivity | ].
  unfold Counter_repr, dict_repr in H.
  cbv beta iota delta [append] in H. discriminate H.
Qed.

Lemma MultipleErrors_arguments_witness :
  ([] : list exc) = [].
Proof.
  apply (proj1 (proj2 (proj2 MultipleErrors_arguments) [])).
  vm_compute. reflexivity.
Defined.

(** ** The errors of the factory *)

Lemma exception_shape (code : Z) :
  exists (c : ErrorClass) (msg : string),
    exception code =
    {| cls := c; args := [VInt code; VStr msg]; errno := VInt code;
       strerror := msg; errors := [] |} /\
    is_Some (kind_of c) /\
    msg = match BROADLINK_EXCEPTIONS !! code with
          | Some (_, m) => m
          | None => "Unknown error"
          end.
Proof.
  unfold exception.
  destruct (BROADLINK_EXCEPTIONS !! code) as [[c msg]|] eqn:H.
  - exists c, msg. split; [reflexivity | ]. split; [ | reflexivity ].
    apply BROADLINK_EXCEPTIONS_lookup in H.
    unfold BROADLINK_EXCEPTIONS_items in H.
    table_cases H; injection H as -> -> ->; eexists; reflexivity.
  - exists UnknownError, "Unknown error".
    split; [reflexivity | ]. split; [eexists; reflexivity | reflexivity].
Qed.

Lemma exception_args (code : Z) :
  exists msg : string, args (exception code) = [VInt code; VStr msg].
Proof.
  destruct (exception_shape code) as (c & msg & -> & _). exists msg. reflexivity.
Qed.

Lemma exception_eq_code (code1 code2 : Z) :
  exc_eq (exception code1) (exception code2) = true -> code1 = code2.
Proof.
  intros H. apply exc_eq_true in H as [_ Ha].
  destruct (exception_args code1) as [m1 H1].
  destruct (exception_args code2) as [m2 H2].
  rewrite H1, H2 in Ha. congruence.
Qed.

(** X5: the factory maps different codes to unequal errors: the errors built
    for two codes compare equal exactly when the codes are the same, also
    when both codes are unknown. *)
Theorem exception_eq_iff_same_code (code1 code2 : Z) :
  exc_eq (exception code1) (exception code2) = true <-> code1 = code2.
Proof.
  split; [apply exception_eq_code | intros ->; apply exc_eq_refl ].
Qed.

Lemma exception_eq_iff_same_code_witness : 100 = 100.
Proof.
  apply (proj1 (exception_eq_iff_same_code 100 100)). vm_compute. reflexivity.
Defined.

(** ** The codes that [check_error] delivers *)

Lemma byte_of_Z (n : Z) : 0 <= n < 256 -> exists b : byte, byte_Z b = n.
Proof.
  intros Hn. destruct (Byte.of_N (Z.to_N n)) as [b|] eqn:Hb.
  - exists b. unfold byte_Z. apply Byte.to_of_N in Hb. rewrite Hb. lia.
  - apply Byte.of_N_None_iff in Hb. lia.
Qed.

Lemma byte_Z_inj (b c : byte) : byte_Z b = byte_Z c -> b = c.
Proof.
  unfold byte_Z. intros H. apply N2Z.inj in H.
  apply (f_equal Byte.of_N) in H. rewrite !Byte.of_to_N in H. congruence.
Qed.

Lemma signed16_inverse (code : Z) :
  -32768 <= code < 32768 -> signed16 (code mod 65536) = code.
Proof.
  intros Hc. destruct (Z.lt_ge_cases code 0) as [Hneg | Hpos].
  - assert (Hm : code mod 65536 = code + 65536).
    { symmetry. apply (Z.mod_unique code 65536 (-1)); lia. }
    rewrite Hm. unfold signed16. rewrite testbit_15 by lia.
    destruct (Z.leb_spec 32768 (code + 65536)); lia.
  - rewrite Z.mod_small by lia. unfold signed16. rewrite testbit_15 by lia.
    destruct (Z.leb_spec 32768 code); lia.
Qed.

Lemma signed16_inj (u v : Z) :
  0 <= u < 65536 -> 0 <= v < 65536 -> signed16 u = signed16 v -> u = v.
Proof.
  intros Hu Hv H.
  destruct (signed16_spec u Hu) as [_ <-].
  destruct (signed16_spec v Hv) as [_ <-]. rewrite H. reflexivity.
Qed.

Lemma unsigned16_inj (order : byteorder) (b0 b1 c0 c1 : byte) :
  unsigned16 order b0 b1 = unsigned16 order c0 c1 -> b0 = c0 /\ b1 = c1.
Proof.
  pose proof (byte_Z_range b0). pose proof (byte_Z_range b1).
  pose proof (byte_Z_range c0). pose proof (byte_Z_range c1).
  destruct order; [rewrite !unsigned16_little | rewrite !unsigned16_big];
    intros H'; split; apply byte_Z_inj; lia.
Qed.

Lemma table_code_range (code : Z) (c : ErrorClass) (msg : string) :
  BROADLINK_EXCEPTIONS !! code = Some (c, msg) -> -4012 <= code <= -1.
Proof.
  intros H. apply BROADLINK_EXCEPTIONS_lookup in H.
  unfold BROADLINK_EXCEPTIONS_items in H.
  table_cases H; injection H as -> -> ->; lia.
Qed.

Lemma check_error_reaches_code (order : byteorder) (code : Z) :
  -32768 <= code < 32768 -> code <> 0 ->
  exists b0 b1 : byte,
    check_error order [b0; b1] = Raise (Broadlink (exception code)).
Proof.
  intros Hc Hnz.
  pose proof (Z.mod_pos_bound code 65536 ltac:(lia)) as Hu.
  pose proof (Z.div_mod (code mod 65536) 256 ltac:(lia)) as Hdm.
  pose proof (Z.mod_pos_bound (code mod 65536) 256 ltac:(lia)) as Hlo.
  assert (Hhi : 0 <= code mod 65536 / 256 < 256).
  { split; [apply Z.div_pos; lia | apply Z.div_lt_upper_bound; lia]. }
  destruct (byte_of_Z _ Hlo) as [lo Elo]. destruct (byte_of_Z _ Hhi) as [hi Ehi].
  assert (Hdec : forall b0 b1,
             unsigned16 order b0 b1 = code mod 65536 ->
             check_error order [b0; b1] = Raise (Broadlink (exception code))).
  { intros b0 b1 E. rewrite check_error_decoded, E, signed16_inverse by exact Hc.
    destruct (Z.eqb_spec code 0); [contradiction | reflexivity]. }
  destruct order.
  - exists lo, hi. apply Hdec. rewrite unsigned16_little, Elo, Ehi. lia.
  - exists hi, lo. apply Hdec. rewrite unsigned16_big, Elo, Ehi. lia.
Qed.

(** X6: every error of the table can be delivered by [check_error]: all keys
    of the table are negative and fit in a signed 16-bit field, and on
    either host every non-zero code of that range is raised, as the error
    the factory builds for it, by some two-byte input. *)
Theorem check_error_reaches_table (order : byteorder) :
  (forall code : Z,
      -32768 <= code < 32768 -> code <> 0 ->
      exists b0 b1 : byte,
        check_error order [b0; b1] = Raise (Broadlink (exception code))) /\
  (forall (code : Z) (c : ErrorClass) (msg : string),
      BROADLINK_EXCEPTIONS !! code = Some (c, msg) ->
      -4012 <= code <= -1 /\
      exists b0 b1 : byte,
        check_error order [b0; b1] =
        Raise (Broadlink
                 {| cls := c; args := [VInt code; VStr msg]; errno := VInt code;
                    strerror := msg; errors := [] |})).
Proof.
  split; [apply check_error_reaches_code | ].
  intros code c msg H. pose proof (table_code_range code c msg H) as Hr.
  split; [exact Hr | ].
  destruct (check_error_reaches_code order code ltac:(lia) ltac:(lia))
    as (b0 & b1 & Hb).
  exists b0, b1. rewrite Hb. unfold exception. rewrite H. reflexivity.
Qed.

Lemma check_error_reaches_table_witness :
  exists b0 b1 : byte,
    check_error big [b0; b1] = Raise (Broadlink (exception (-4012))).
Proof.
  apply (proj1 (check_error_reaches_table big) (-4012)); lia.
Defined.

(** X7: whatever its input, [check_error] raises no error of this module
    other than one the factory builds for a non-zero code of the signed
    16-bit range, read from an input of exactly two bytes; the error carries
    that code, and its class is never the base class or the aggregate. *)
Theorem check_error_raises_only (order : byteorder) (error : list byte) (e : exc) :
  check_error order error = Raise (Broadlink e) ->
  exists code : Z,
    e = exception code /\ code <> 0 /\ -32768 <= code < 32768 /\
    unpack_h order error = Some code /\
    errno e = VInt code /\ is_Some (kind_of (cls e)) /\
    length error = 2%nat.
Proof.
  intros H.
  destruct error as [|b0 [|b1 [|b2 rest]]]; try discriminate H.
  rewrite check_error_decoded in H.
  set (code := signed16 (unsigned16 order b0 b1)) in *.
  destruct (Z.eqb_spec code 0) as [Hz | Hnz]; [discriminate H | ].
  injection H as <-. exists code.
  destruct (signed16_spec _ (unsigned16_range order b0 b1)) as [Hr _].
  destruct (exception_shape code) as (c & msg & Hs & Hk & _).
  repeat split; try assumption; try lia.
  - rewrite Hs. reflexivity.
  - rewrite Hs. exact Hk.
Qed.

Lemma check_error_raises_only_witness :
  exists code : Z,
    exception (-3) = exception code /\ code <> 0 /\ -32768 <= code < 32768 /\
    unpack_h little [xfd; xff] = Some code /\
    errno (exception (-3)) = VInt code /\
    is_Some (kind_of (cls (exception (-3)))) /\
    length [xfd; xff] = 2%nat.
Proof.
  apply (check_error_raises_only little [xfd; xff] (exception (-3))).
  vm_compute. reflexivity.
Defined.

(** X8: [check_error] tells all two-byte inputs apart: on the same host two
    inputs with the same outcome are the same two bytes. *)
Theorem check_error_injective (order : byteorder) (b0 b1 c0 c1 : byte) :
  check_error order [b0; b1] = check_error order [c0; c1] ->
  b0 = c0 /\ b1 = c1.
Proof.
  rewrite !check_error_decoded. intros H.
  apply (unsigned16_inj order).
  apply signed16_inj; try apply unsigned16_range.
  destruct (Z.eqb_spec (signed16 (unsigned16 order b0 b1)) 0) as [Hb | Hb];
    destruct (Z.eqb_spec (signed16 (unsigned16 order c0 c1)) 0) as [Hc | Hc];
    try discriminate H.
  - congruence.
  - injection H as H. apply exception_eq_code.
    rewrite H. apply exc_eq_refl.
Qed.

Lemma check_error_injective_witness : xfd = xfd /\ xff = xff.
Proof.
  apply (check_error_injective little xfd xff xfd xff). reflexivity.
Defined.

(** ** Display forms *)

Lemma exc_str_plain (e : exc) :
  cls e <> MultipleErrors -> exc_str e = BroadlinkException_str e.
Proof. intros Hc. unfold exc_str. destruct (cls e); congruence. Qed.

(** X9: the display form of an error built by the base constructor follows
    the number of arguments.  Without arguments it is empty; a single
    argument is the message and never a code, also when it is an integer;
    with two or more arguments the first is the code and the display is
    "[Errno <code>] <message>", unless the code is [None], in which case it
    is the message alone. *)
Theorem exc_str_by_arguments (c : ErrorClass) :
  c <> MultipleErrors ->
  exc_str (BroadlinkException_init c []) = "" /\
  (forall a : PyVal,
      exc_str (BroadlinkException_init c [a]) = py_str a /\
      errno (BroadlinkException_init c [a]) = VNone) /\
  (forall (a0 a1 : PyVal) (rest : list PyVal),
      a0 <> VNone ->
      exc_str (BroadlinkException_init c (a0 :: a1 :: rest)) =
      "[Errno " ++ py_str a0 ++ "] " ++ join ": " (List.map py_str (a1 :: rest))) /\
  (forall (a1 : PyVal) (rest : list PyVal),
      exc_str (BroadlinkException_init c (VNone :: a1 :: rest)) =
      join ": " (List.map py_str (a1 :: rest))).
Proof.
  intros Hc.
  assert (Hs : forall a, exc_str (BroadlinkException_init c a) =
                         BroadlinkException_str (BroadlinkException_init c a)).
  { intros a. apply exc_str_plain. rewrite init_cls. exact Hc. }
  split; [rewrite Hs; reflexivity | ].
  split; [intros a; rewrite Hs; split; reflexivity | ].
  split.
  - intros a0 a1 rest Hne. rewrite Hs.
    unfold BroadlinkException_str, BroadlinkException_init.
    cbn [length Nat.leb errno strerror nth skipn].
    destruct a0; [contradiction | reflexivity | reflexivity].
  - intros a1 rest. rewrite Hs. reflexivity.
Qed.

Lemma exc_str_by_arguments_witness :
  exc_str (BroadlinkException_init SendError [VInt (-8)]) = "-8" /\
  exc_str (BroadlinkException_init SendError [VStr "E8"; VStr "Send error"]) =
  "[Errno E8] Send error".
Proof.
  split.
  - apply (proj1 (proj2 (exc_str_by_arguments SendError ltac:(discriminate)))).
  - apply (proj1 (proj2 (proj2 (exc_str_by_arguments SendError ltac:(discriminate))))).
    discriminate.
Defined.

Lemma append_inj_l (s a b : string) : s ++ a = s ++ b -> a = b.
Proof.
  induction s as [|c s IH]; [intros H; exact H | ].
  intros H. apply IH.
  change (String c (s ++ a) = String c (s ++ b)) in H. congruence.
Qed.

Lemma append_split_at (c : ascii) (s1 s2 t1 t2 : string) :
  contains c s1 = false -> contains c s2 = false ->
  s1 ++ String c t1 = s2 ++ String c t2 -> s1 = s2 /\ t1 = t2.
Proof.
  revert s2. induction s1 as [|a s1 IH]; intros [|b s2]; cbn [contains].
  - intros _ _ H. change (String c t1 = String c t2) in H.
    split; [reflexivity | congruence].
  - intros _ Hb H. change (String c t1 = String b (s2 ++ String c t2)) in H.
    injection H as -> _. rewrite Ascii.eqb_refl in Hb. discriminate Hb.
  - intros Ha _ H. change (String a (s1 ++ String c t1) = String c t2) in H.
    injection H as -> _. rewrite Ascii.eqb_refl in Ha. discriminate Ha.
  - intros Ha Hb H.
    change (String a (s1 ++ String c t1) = String b (s2 ++ String c t2)) in H.
    injection H as -> H.
    apply orb_false_elim in Ha as [_ Ha]. apply orb_false_elim in Hb as [_ Hb].
    destruct (IH s2 Ha Hb H) as [-> ->]. split; reflexivity.
Qed.

Lemma string_of_uint_digits (c : ascii) (d : Decimal.uint) :
  (N_of_ascii c <? 48)%N || (57 <? N_of_ascii c)%N = true ->
  contains c (NilEmpty.string_of_uint d) = false.
Proof.
  intros Hc. induction d as [|d IH|d IH|d IH|d IH|d IH|d IH|d IH|d IH|d IH|d IH];
    cbn [NilEmpty.string_of_uint contains]; [reflexivity | .. ];
    rewrite IH, orb_false_r; apply Ascii.eqb_neq; intros ->;
    vm_compute in Hc; discriminate Hc.
Qed.

Lemma int_str_no_bracket (z : Z) : contains "]"%char (int_str z) = false.
Proof.
  unfold int_str. destruct (Z.to_int z) as [d|d];
    cbn [NilEmpty.string_of_int contains].
  - apply string_of_uint_digits. reflexivity.
  - rewrite string_of_uint_digits by reflexivity. reflexivity.
Qed.

Lemma int_str_inj (z1 z2 : Z) : int_str z1 = int_str z2 -> z1 = z2.
Proof.
  unfold int_str. intros H. apply DecimalZ.to_int_inj.
  apply (f_equal NilEmpty.int_of_string) in H.
  rewrite !NilEmpty.isi in H. congruence.
Qed.

Lemma exc_str_exception (code : Z) :
  exc_str (exception code) =
  "[Errno " ++ int_str code ++ "] " ++ strerror (exception code).
Proof.
  destruct (exception_shape code) as (c & msg & Hs & [k Hk] & _).
  rewrite Hs. rewrite exc_str_plain; [reflexivity | ].
  cbn [cls]. intros ->. discriminate Hk.
Qed.

(** X10: the display form of the error the factory builds for a code is
    "[Errno <code>] <message>", with the message of the table or "Unknown
    error"; it always shows the code in decimal, and the display forms of
    two different codes differ. *)
Theorem exception_display :
  (forall code : Z,
      exc_str (exception code) =
      "[Errno " ++ int_str code ++ "] " ++
      match BROADLINK_EXCEPTIONS !! code with
      | Some (_, msg) => msg
      | None => "Unknown error"
      end) /\
  (forall code1 code2 : Z,
      exc_str (exception code1) = exc_str (exception code2) -> code1 = code2).
Proof.
  split.
  - intros code. rewrite exc_str_exception.
    destruct (exception_shape code) as (c & msg & -> & _ & ->). reflexivity.
  - intros code1 code2. rewrite !exc_str_exception. intros H.
    apply append_inj_l in H.
    change (int_str code1 ++ String "]" (" " ++ strerror (exception code1)) =
            int_str code2 ++ String "]" (" " ++ strerror (exception code2))) in H.
    apply append_split_at in H as [H _]; try apply int_str_no_bracket.
    apply int_str_inj, H.
Qed.

Lemma exception_display_witness : -7 = -7.
Proof.
  apply (proj2 exception_display (-7) (-7)). reflexivity.
Defined.

(** ** Counts and the order of the sequence *)

Lemma occurrences_perm (e : exc) (l1 l2 : list exc) :
  Permutation l1 l2 -> occurrences e l1 = occurrences e l2.
Proof.
  induction 1 as [|x l1 l2 _ IH|x y l|l1 l2 l3 _ IH1 _ IH2];
    cbn [occurrences]; lia.
Qed.

(** X11: the counts of the [Counter] do not depend on the order of the
    sequence: two sequences with the same items in different orders give
    every error the same count and the same total, although their summaries
    may list the entries in different orders. *)
Theorem Counter_counts_permutation (l1 l2 : list exc) :
  Permutation l1 l2 ->
  (forall e : exc, counter_get e (Counter l1) = counter_get e (Counter l2)) /\
  counter_total (Counter l1) = counter_total (Counter l2) /\
  length (Counter l1) = length (Counter l2).
Proof.
  intros Hp.
  assert (Hget : forall e, counter_get e (Counter l1) = counter_get e (Counter l2)).
  { intros e. rewrite !counter_get_Counter. apply occurrences_perm, Hp. }
  split; [exact Hget | ]. split.
  - assert (Ht : forall l, counter_total (Counter l) = Z.of_nat (length l)).
    { intros l. induction l as [|x l IH] using rev_ind; [reflexivity | ].
      rewrite Counter_snoc, counter_total_count_element, IH, length_app.
      cbn [length]. lia. }
    rewrite !Ht, (Permutation_length Hp). reflexivity.
  - assert (Hlen : forall l l' : list exc,
               (forall e, counter_get e (Counter l) = counter_get e (Counter l')) ->
               (length (Counter l) <= length (Counter l'))%nat).
    { clear. intros l l' Hget.
      pose proof (Counter_distinct_keys l) as Hd.
      assert (Hin : forall item, In item (Counter l) ->
                                 1 <= counter_get (fst item) (Counter l')).
      { intros [k n] Hk. cbn [fst]. rewrite <- Hget, counter_get_Counter.
        apply occurrences_member. exact (Counter_keys l (k, n) Hk). }
      revert Hd Hin. generalize (Counter l') as m'. generalize (Counter l) as m.
      induction m as [|[k n] m IH]; intros m' Hd Hin; [cbn; lia | ].
      cbn [distinct_keys] in Hd. destruct Hd as [Hk Hd].
      assert (Hsplit : exists m1 k' n' m2,
                 m' = (m1 ++ (k', n') :: m2)%list /\ exc_eq k' k = true /\
                 forall e, exc_eq k e = false ->
                           counter_get e (m1 ++ m2)%list = counter_get e m').
      { specialize (Hin (k, n) (or_introl eq_refl)). cbn [fst] in Hin.
        clear IH Hk Hd. induction m' as [|[k' n'] m' IHm'].
        - cbn in Hin. lia.
        - cbn [counter_get] in Hin. destruct (exc_eq k' k) eqn:Hk'.
          + exists [], k', n', m'. split; [reflexivity | ]. split; [exact Hk' | ].
            intros e He. cbn [app counter_get].
            rewrite <- (exc_eq_congr k' k e Hk') in He. rewrite He. reflexivity.
          + destruct (IHm' Hin) as (m1 & k'' & n'' & m2 & -> & Hk'' & Hrest).
            exists ((k', n') :: m1), k'', n'', m2.
            split; [reflexivity | ]. split; [exact Hk'' | ].
            intros e He. cbn [app counter_get]. rewrite (Hrest e He). reflexivity. }
      destruct Hsplit as (m1 & k' & n' & m2 & -> & Hk' & Hrest).
      rewrite length_app. cbn [length].
      specialize (IH (m1 ++ m2)%list Hd). rewrite length_app in IH.
      assert (length m <= length m1 + length m2)%nat; [ | lia ].
      apply IH. intros item Hitem.
      rewrite Hrest; [apply Hin; right; exact Hitem | ].
      exact (Hk item Hitem). }
    apply Nat.le_antisymm; apply Hlen; [exact Hget | ].
    intros e. symmetry. apply Hget.
Qed.

Lemma Counter_counts_permutation_witness :
  counter_total (Counter [exception (-1); exception (-3)]) =
  counter_total (Counter [exception (-3); exception (-1)]).
Proof.
  apply (Counter_counts_permutation [exception (-1); exception (-3)]
           [exception (-3); exception (-1)]).
  apply perm_swap.
Defined.

(** ** Aggregates of equal errors *)

Lemma exc_repr_leaf_equal (x y : exc) : leaf_equal x y -> exc_repr x = exc_repr y.
Proof.
  unfold leaf_equal. rewrite exc_eq_true.
  destruct x as [c a n s es], y as [c' a' n' s' es']. cbn [cls args].
  intros [[<- <-] Hc]. destruct c; try contradiction; reflexivity.
Qed.

Lemma leaf_equal_key (k1 k2 x y : exc) :
  leaf_equal k1 k2 -> leaf_equal x y -> exc_eq k1 x = exc_eq k2 y.
Proof.
  intros [Hk _] [Hx _].
  rewrite (exc_eq_congr k1 k2 x Hk), (exc_eq_sym k2 x), (exc_eq_congr x y k2 Hx).
  apply exc_eq_sym.
Qed.

Lemma count_element_entry_equal (x y : exc) (m1 m2 : counter) :
  leaf_equal x y -> Forall2 entry_equal m1 m2 ->
  Forall2 entry_equal (count_element x m1) (count_element y m2).
Proof.
  intros Hxy. induction 1 as [|[k1 n1] [k2 n2] m1 m2 [Hk Hn] Hm IH];
    cbn [count_element].
  - constructor; [split; [exact Hxy | reflexivity] | constructor].
  - cbn [fst snd] in Hk, Hn. subst n2.
    rewrite (leaf_equal_key k1 k2 x y Hk Hxy).
    destruct (exc_eq k2 y).
    + constructor; [split; [exact Hk | reflexivity] | assumption].
    + constructor; [split; [exact Hk | reflexivity] | exact IH].
Qed.

Lemma Counter_entry_equal (l1 l2 : list exc) :
  Forall2 leaf_equal l1 l2 -> Forall2 entry_equal (Counter l1) (Counter l2).
Proof.
  unfold Counter. intros H.
  assert (Hnil : Forall2 entry_equal [] []) by constructor.
  revert Hnil. generalize (@nil (exc * Z)) at 1 3 as m1.
  generalize (@nil (exc * Z)) as m2.
  induction H as [|x y l1 l2 Hxy _ IH]; intros m2 m1 Hm; [exact Hm | ].
  cbn [fold_left]. apply IH. apply count_element_entry_equal; assumption.
Qed.

Lemma insert_by_count_entry_equal (i j : exc * Z) (s1 s2 : counter) :
  entry_equal i j -> Forall2 entry_equal s1 s2 ->
  Forall2 entry_equal (insert_by_count i s1) (insert_by_count j s2).
Proof.
  intros Hij. induction 1 as [|h1 h2 s1 s2 Hh Hs IH]; cbn [insert_by_count].
  - constructor; [exact Hij | constructor].
  - destruct Hij as [Hkey Hcount], Hh as [Hhkey Hhcount].
    rewrite Hcount, Hhcount. destruct (Z.ltb (snd h2) (snd j)).
    + constructor; [split; assumption | ].
      constructor; [split; assumption | exact Hs].
    + constructor; [split; assumption | ].
      apply IH.
Qed.

Lemma most_common_entry_equal (c1 c2 : counter) :
  Forall2 entry_equal c1 c2 ->
  Forall2 entry_equal (most_common c1) (most_common c2).
Proof.
  unfold most_common. intros H.
  assert (Hnil : Forall2 entry_equal [] []) by constructor.
  revert Hnil. generalize (@nil (exc * Z)) at 1 3 as s1.
  generalize (@nil (exc * Z)) as s2.
  induction H as [|i j c1 c2 Hij _ IH]; intros s2 s1 Hs; [exact Hs | ].
  cbn [fold_left]. apply IH. apply insert_by_count_entry_equal; assumption.
Qed.

Lemma item_repr_entry_equal (s1 s2 : counter) :
  Forall2 entry_equal s1 s2 -> List.map item_repr s1 = List.map item_repr s2.
Proof.
  induction 1 as [|i j s1 s2 [Hkey Hcount] _ IH]; [reflexivity | ].
  cbn [List.map]. rewrite IH. unfold item_repr.
  rewrite (exc_repr_leaf_equal _ _ Hkey), Hcount. reflexivity.
Qed.

Lemma Counter_repr_entry_equal (c1 c2 : counter) :
  Forall2 entry_equal c1 c2 -> Counter_repr c1 = Counter_repr c2.
Proof.
  intros H. pose proof (most_common_entry_equal c1 c2 H) as Hm.
  destruct H as [|i j c1 c2 Hij H]; [reflexivity | ].
  unfold Counter_repr, dict_repr.
  rewrite (item_repr_entry_equal _ _ Hm). reflexivity.
Qed.

(** X12: aggregation respects the equality of errors: two [MultipleErrors]
    built from sequences of the same length whose items are pairwise equal
    and are not aggregates themselves have the same summary and compare
    equal. *)
Theorem MultipleErrors_eq_elementwise (l1 l2 : list exc) :
  Forall2 (fun x y => exc_eq x y = true) l1 l2 ->
  Forall (fun x => cls x <> MultipleErrors) l1 ->
  strerror (MultipleErrors_init [l1]) = strerror (MultipleErrors_init [l2]) /\
  exc_eq (MultipleErrors_init [l1]) (MultipleErrors_init [l2]) = true.
Proof.
  intros Heq Hleaf.
  assert (H : Forall2 leaf_equal l1 l2).
  { induction Heq as [|x y l1 l2 Hxy _ IH]; [constructor | ].
    inversion Hleaf as [|? ? Hx Hl]; subst.
    constructor; [split; assumption | exact (IH Hl)]. }
  assert (Hs : strerror (MultipleErrors_init [l1]) =
               strerror (MultipleErrors_init [l2])).
  { rewrite !MultipleErrors_init_strerror.
    rewrite (Counter_repr_entry_equal _ _ (Counter_entry_equal _ _ H)).
    reflexivity. }
  split; [exact Hs | ].
  apply exc_eq_true. split; [reflexivity | ].
  destruct (MultipleErrors_init_args [l1]) as (_ & -> & _).
  destruct (MultipleErrors_init_args [l2]) as (_ & -> & _).
  rewrite Hs. reflexivity.
Qed.

Lemma MultipleErrors_eq_elementwise_witness :
  exc_eq
    (MultipleErrors_init [[exception (-1); exception (-3)]])
    (MultipleErrors_init
       [[set_errors (exception (-1)) [exception (-2)]; exception (-3)]]) = true.
Proof.
  apply (MultipleErrors_eq_elementwise
           [exception (-1); exception (-3)]
           [set_errors (exception (-1)) [exception (-2)]; exception (-3)]).
  - repeat constructor.
  - repeat constructor; vm_compute; discriminate.
Defined.

(** ** The decoded code in closed form *)

(** X13: the code [check_error] decodes from two bytes is the low byte plus
    256 times the high byte, less 65536 when the top bit of the high byte is
    set; the high byte is the second byte on a little-endian host and the
    first on a big-endian one.  So the code is negative exactly when the
    high byte is 128 or more. *)
Theorem unpack_h_closed_form (order : byteorder) (b0 b1 : byte) :
  let lo := match order with little => byte_Z b0 | big => byte_Z b1 end in
  let hi := match order with little => byte_Z b1 | big => byte_Z b0 end in
  unpack_h order [b0; b1] =
  Some (lo + 256 * hi - (if Z.leb 128 hi then 65536 else 0)) /\
  (forall code : Z, unpack_h order [b0; b1] = Some code -> (code < 0 <-> 128 <= hi)).
Proof.
  intros lo hi.
  pose proof (byte_Z_range b0) as H0. pose proof (byte_Z_range b1) as H1.
  assert (Hu : unsigned16 order b0 b1 = lo + 256 * hi).
  { unfold lo, hi. destruct order;
      [rewrite unsigned16_little | rewrite unsigned16_big]; lia. }
  assert (Hlo : 0 <= lo < 256) by (unfold lo; destruct order; assumption).
  assert (Hhi : 0 <= hi < 256) by (unfold hi; destruct order; assumption).
  assert (Hs : signed16 (unsigned16 order b0 b1) =
               lo + 256 * hi - (if Z.leb 128 hi then 65536 else 0)).
  { rewrite Hu. unfold signed16. rewrite testbit_15 by lia.
    destruct (Z.leb_spec 32768 (lo + 256 * hi));
      destruct (Z.leb_spec 128 hi); lia. }
  unfold unpack_h. rewrite Hs. split; [reflexivity | ].
  intros code [= <-]. destruct (Z.leb_spec 128 hi); lia.
Qed.

Lemma unpack_h_closed_form_witness : -3 < 0 <-> 128 <= byte_Z xff.
Proof.
  apply (proj2 (unpack_h_closed_form little xfd xff) (-3)).
  vm_compute. reflexivity.
Defined.
